(** * CSS selector builder (src/06-objects-tasks.js): model and properties

    The class [CssSelector] and the facade object [cssSelectorBuilder] are
    embedded over an explicit store of builder objects.  A builder is a
    JavaScript object that its methods mutate in place and hand back as
    [this]; the store keeps that identity: a method takes the address of
    its receiver, and a [throw] leaves the store as it was when the
    exception was raised. *)

From Stdlib Require Import ZArith List Lia.
From stdpp Require Import base option list sorting strings gmap.

Local Open Scope string_scope.
Local Open Scope list_scope.
Local Open Scope Z_scope.

(** ** Array and Set primitives used by the class *)

Module Js.

(** [Array.prototype.indexOf]: zero-based position of the first element
    strictly equal to [x], and -1 when there is none. *)
Fixpoint indexOf_from (i : Z) (l : list string) (x : string) : Z :=
  match l with
  | [] => -1
  | y :: l' => if String.eqb y x then i else indexOf_from (i + 1) l' x
  end.

Definition indexOf (l : list string) (x : string) : Z := indexOf_from 0 l x.

(** [Array.prototype.includes] on an array of strings. *)
Definition includes (l : list string) (x : string) : bool :=
  existsb (String.eqb x) l.

(** [Array.prototype.join]. *)
Definition join (sep : string) (l : list string) : string :=
  String.concat sep l.

(** [Set.prototype.has] and [Set.prototype.add]. *)
Definition has (s : gset string) (x : string) : bool := bool_decide (x ∈ s).
Definition add (x : string) (s : gset string) : gset string := {[ x ]} ∪ s.

End Js.

(** ** Objects *)

(** An entry of [this.parts]: the object literal [{ type, value }]. *)
Record Part : Type := mkPart { type : string; value : string }.

(** The two kinds of exception the model raises: [new Error(message)] is
    what the class throws; [TypeError] is what JavaScript raises when a
    method is called on a value that is no object, which in the model is an
    address the store does not hold. *)
Inductive exn : Type :=
| Error (message : string)
| TypeError (message : string).

Inductive completion (A : Type) : Type :=
| Normal (a : A)
| Throw (e : exn).
Arguments Normal {A} a.
Arguments Throw {A} e.

Definition loc : Type := nat.

Module CssSelector.

(** The fields the constructor sets. *)
Record t : Type := mk {
  parts : list Part;
  order : list string;
  usedParts : gset string
}.

Definition set_parts (ps : list Part) (o : t) : t :=
  {| parts := ps; order := order o; usedParts := usedParts o |}.

Definition set_usedParts (s : gset string) (o : t) : t :=
  {| parts := parts o; order := order o; usedParts := s |}.

(** The store: the builder objects allocated so far, by address. *)
Abbreviation heap := (list t) (only parsing).

(** Computations over the store that return or throw. *)
Definition M (A : Type) : Type := heap -> completion A * heap.

Definition ret {A : Type} (a : A) : M A := fun h => (Normal a, h).

Definition throw {A : Type} (e : exn) : M A := fun h => (Throw e, h).

Definition bind {A B : Type} (m : M A) (k : A -> M B) : M B :=
  fun h =>
    match m h with
    | (Normal a, h') => k a h'
    | (Throw e, h') => (Throw e, h')
    end.

Module Import Notations.
Declare Scope js_scope.
Delimit Scope js_scope with js.
Notation "x <- m ;; k" := (bind m (fun x => k))
  (at level 100, m at next level, right associativity) : js_scope.
Notation "m ;; k" := (bind m (fun _ => k))
  (at level 100, right associativity) : js_scope.
End Notations.
Local Open Scope js_scope.

Definition not_an_object : string := "Cannot read properties of undefined".

(** Reading the object at an address. *)
Definition load (l : loc) : M t :=
  fun h =>
    match h !! l with
    | Some o => (Normal o, h)
    | None => (Throw (TypeError not_an_object), h)
    end.

(** [this.f]. *)
Definition getf {A : Type} (f : t -> A) (l : loc) : M A :=
  o <- load l ;; ret (f o).

(** In-place update of the object at an address. *)
Definition modify (l : loc) (f : t -> t) : M unit :=
  o <- load l ;; fun h => (Normal tt, <[ l := f o ]> h).

(** [if (c) throw e]. *)
Definition throw_if (c : bool) (e : exn) : M unit :=
  if c then throw e else ret tt.

Definition order_message : string :=
  "Selector parts should be arranged in the following order: element, id, class, attribute, pseudo-class, pseudo-element".

Definition unique_message : string :=
  "Element, id and pseudo-element should not occur more then one time inside the selector".

(** The object as [constructor()] initialises it. *)
Definition constructor : t :=
  {| parts := [];
     order := ["element"; "id"; "class"; "attr"; "pseudoClass"; "pseudoElement"];
     usedParts := ∅ |}.

(** [new CssSelector()]: the object is allocated at the next address, which
    nothing holds yet. *)
Definition new : M loc :=
  fun h => (Normal (List.length h), h ++ [constructor]).

(** [validateOrder(partType)].  [this.parts.length > 0] and the read of
    [this.parts[this.parts.length - 1]] are one match on the last
    element. *)
Definition validateOrder (this : loc) (partType : string) : M unit :=
  ps <- getf parts this ;;
  match last ps with
  | Some lastPart =>
      let lastPartType := type lastPart in
      ord <- getf order this ;;
      let lastIndex := Js.indexOf ord lastPartType in
      let newIndex := Js.indexOf ord partType in
      throw_if (newIndex <? lastIndex) (Error order_message)
  | None => ret tt
  end ;;
  used <- getf usedParts this ;;
  throw_if (Js.includes ["element"; "id"; "pseudoElement"] partType
            && Js.has used partType)
           (Error unique_message) ;;
  modify this (fun o => set_usedParts (Js.add partType (usedParts o)) o).

(** [this.parts.push(p)]. *)
Definition push (this : loc) (p : Part) : M unit :=
  modify this (fun o => set_parts (parts o ++ [p]) o).

Definition element (this : loc) (value : string) : M loc :=
  validateOrder this "element" ;;
  push this {| type := "element"; value := value |} ;;
  ret this.

Definition id (this : loc) (value : string) : M loc :=
  validateOrder this "id" ;;
  push this {| type := "id"; value := "#" +:+ value |} ;;
  ret this.

Definition class (this : loc) (value : string) : M loc :=
  validateOrder this "class" ;;
  push this {| type := "class"; value := "." +:+ value |} ;;
  ret this.

Definition attr (this : loc) (value : string) : M loc :=
  validateOrder this "attr" ;;
  push this {| type := "attr"; value := "[" +:+ value +:+ "]" |} ;;
  ret this.

Definition pseudoClass (this : loc) (value : string) : M loc :=
  validateOrder this "pseudoClass" ;;
  push this {| type := "pseudoClass"; value := ":" +:+ value |} ;;
  ret this.

Definition pseudoElement (this : loc) (value : string) : M loc :=
  validateOrder this "pseudoElement" ;;
  push this {| type := "pseudoElement"; value := "::" +:+ value |} ;;
  ret this.

(** [stringify()].  The test [this.parts.length === 0] and the read of
    [this.parts[0]] are one match on the list. *)
Definition stringify (this : loc) : M string :=
  ps <- getf parts this ;;
  match ps with
  | [] => ret ""
  | p0 :: _ =>
      if String.eqb (type p0) "combined" then ret (value p0)
      else ret (Js.join "" (map value ps))
  end.

(** [static combine(selector1, combinator, selector2)]. *)
Definition combine (selector1 : loc) (combinator : string) (selector2 : loc)
  : M loc :=
  combined <- new ;;
  s1 <- stringify selector1 ;;
  s2 <- stringify selector2 ;;
  modify combined
    (set_parts [ {| type := "combined";
                    value := s1 +:+ " " +:+ combinator +:+ " " +:+ s2 |} ]) ;;
  ret combined.

End CssSelector.

(** ** The facade *)

Module cssSelectorBuilder.

Import CssSelector CssSelector.Notations.
Local Open Scope js_scope.

Definition element (value : string) : M loc :=
  this <- new ;; CssSelector.element this value.

Definition id (value : string) : M loc :=
  this <- new ;; CssSelector.id this value.

Definition class (value : string) : M loc :=
  this <- new ;; CssSelector.class this value.

Definition attr (value : string) : M loc :=
  this <- new ;; CssSelector.attr this value.

Definition pseudoClass (value : string) : M loc :=
  this <- new ;; CssSelector.pseudoClass this value.

Definition pseudoElement (value : string) : M loc :=
  this <- new ;; CssSelector.pseudoElement this value.

Definition combine (selector1 : loc) (combinator : string) (selector2 : loc)
  : M loc :=
  CssSelector.combine selector1 combinator selector2.

End cssSelectorBuilder.

Import CssSelector.Notations.
Local Open Scope js_scope.

(** ** Category calls *)

(** The six part-adding methods, as one indexed family, so that a property
    can range over "every category call". *)
Inductive Category : Type :=
| Element | Id | Class | Attr | PseudoClass | PseudoElement.

#[global] Instance Category_eq_dec : EqDecision Category.
Proof. solve_decision. Defined.

(** The string each method hands to [validateOrder] and stores as [type]. *)
Definition name (c : Category) : string :=
  match c with
  | Element => "element"
  | Id => "id"
  | Class => "class"
  | Attr => "attr"
  | PseudoClass => "pseudoClass"
  | PseudoElement => "pseudoElement"
  end.

(** The string each method stores as [value]. *)
Definition rendered (c : Category) (v : string) : string :=
  match c with
  | Element => v
  | Id => "#" +:+ v
  | Class => "." +:+ v
  | Attr => "[" +:+ v +:+ "]"
  | PseudoClass => ":" +:+ v
  | PseudoElement => "::" +:+ v
  end.

Definition part_of (c : Category) (v : string) : Part :=
  {| type := name c; value := rendered c v |}.

(** [b.c(v)] for a builder [b]. *)
Definition invoke (c : Category) : loc -> string -> CssSelector.M loc :=
  match c with
  | Element => CssSelector.element
  | Id => CssSelector.id
  | Class => CssSelector.class
  | Attr => CssSelector.attr
  | PseudoClass => CssSelector.pseudoClass
  | PseudoElement => CssSelector.pseudoElement
  end.

(** [cssSelectorBuilder.c(v)]. *)
Definition facade (c : Category) : string -> CssSelector.M loc :=
  match c with
  | Element => cssSelectorBuilder.element
  | Id => cssSelectorBuilder.id
  | Class => cssSelectorBuilder.class
  | Attr => cssSelectorBuilder.attr
  | PseudoClass => cssSelectorBuilder.pseudoClass
  | PseudoElement => cssSelectorBuilder.pseudoElement
  end.

(** [b.c1(v1).c2(v2)...]: every call is made on what the previous one
    returned. *)
Fixpoint chain (b : loc) (calls : list (Category * string)) : CssSelector.M loc :=
  match calls with
  | [] => CssSelector.ret b
  | (c, v) :: calls' => b' <- invoke c b v ;; chain b' calls'
  end.

(** The order-index of a part type: its position in the array the
    constructor stores in [this.order]. *)
Definition order_index (ty : string) : Z :=
  Js.indexOf (CssSelector.order CssSelector.constructor) ty.

(** Element, id and pseudo-element: the categories [validateOrder] admits
    once. *)
Definition singleton (c : Category) : bool :=
  Js.includes ["element"; "id"; "pseudoElement"] (name c).

(** The first test of [validateOrder(ty)] on an object in state [o]: there
    is a last part and [ty] sits before its type in [this.order]. *)
Definition order_violation (o : CssSelector.t) (ty : string) : bool :=
  match last (CssSelector.parts o) with
  | Some lastPart =>
      Js.indexOf (CssSelector.order o) ty
        <? Js.indexOf (CssSelector.order o) (type lastPart)
  | None => false
  end.

(** What [validateOrder(ty)] raises on an object in state [o], if anything. *)
Definition raised (o : CssSelector.t) (ty : string) : option exn :=
  if order_violation o ty then Some (Error CssSelector.order_message)
  else if Js.includes ["element"; "id"; "pseudoElement"] ty
          && Js.has (CssSelector.usedParts o) ty
       then Some (Error CssSelector.unique_message)
       else None.

(** The state of an object after a category call that returned. *)
Definition appended (c : Category) (v : string) (o : CssSelector.t) : CssSelector.t :=
  {| CssSelector.parts := CssSelector.parts o ++ [part_of c v];
     CssSelector.order := CssSelector.order o;
     CssSelector.usedParts := Js.add (name c) (CssSelector.usedParts o) |}.

(** What [stringify()] returns on an object in state [o]. *)
Definition text (o : CssSelector.t) : string :=
  match CssSelector.parts o with
  | [] => ""
  | p0 :: _ =>
      if String.eqb (type p0) "combined" then value p0
      else Js.join "" (map value (CssSelector.parts o))
  end.

(** ** Vocabulary of the properties *)

(** The arguments of a sequence of category calls, in call order. *)
Abbreviation calls := (list (Category * string)) (only parsing).

(** Order-indices never go down along the sequence. *)
Definition nondecreasing (cs : calls) : Prop :=
  Sorted Z.le ((fun x => order_index (name x.1)) <$> cs).

(** How many calls of the sequence are to category [c]. *)
Definition occurrences (c : Category) (cs : calls) : nat :=
  count_occ Category_eq_dec (fst <$> cs) c.

(** Element, id and pseudo-element occur at most once. *)
Definition singletons_once (cs : calls) : Prop :=
  forall c, singleton c = true -> (occurrences c cs <= 1)%nat.

(** The strings of a list, one after the other, nothing in between. *)
Definition concat_all (l : list string) : string := foldr String.append "" l.

(** The object that the calls [cs], made in this order on a new builder,
    leave behind. *)
Definition built (cs : calls) : CssSelector.t :=
  {| CssSelector.parts := (fun x => part_of x.1 x.2) <$> cs;
     CssSelector.order := CssSelector.order CssSelector.constructor;
     CssSelector.usedParts := list_to_set ((fun x => name x.1) <$> cs) |}.

(** The object [combine] returns: a constructed object whose [parts] is the
    one opaque part. *)
Definition combined_of (s1 combinator s2 : string) : CssSelector.t :=
  CssSelector.set_parts
    [ {| type := "combined"; value := s1 +:+ " " +:+ combinator +:+ " " +:+ s2 |} ]
    CssSelector.constructor.

(** Scenario 3 of the class comment: three nested [combine] calls;
    arguments are evaluated left to right. *)
Definition nested_combine : CssSelector.M string :=
  a <- (b <- cssSelectorBuilder.element "div" ;;
        b <- CssSelector.id b "main" ;;
        b <- CssSelector.class b "container" ;;
        CssSelector.class b "draggable") ;;
  r <- (a1 <- (b <- cssSelectorBuilder.element "table" ;;
               CssSelector.id b "data") ;;
        r1 <- (a2 <- (b <- cssSelectorBuilder.element "tr" ;;
                      CssSelector.pseudoClass b "nth-of-type(even)") ;;
               b2 <- (b <- cssSelectorBuilder.element "td" ;;
                      CssSelector.pseudoClass b "nth-of-type(even)") ;;
               cssSelectorBuilder.combine a2 " " b2) ;;
        cssSelectorBuilder.combine a1 "~" r1) ;;
  c <- cssSelectorBuilder.combine a "+" r ;;
  CssSelector.stringify c.

(** The claim of [C4] as its words have it: whatever was called in
    between, the repeated call raises the uniqueness error. *)
Definition repeated_singleton_uniqueness : Prop :=
  forall (h h1 h2 : CssSelector.heap) (b b1 b2 : loc) (c : Category)
         (v v' : string) (cs : calls),
    singleton c = true ->
    invoke c b v h = (Normal b1, h1) ->
    chain b1 cs h1 = (Normal b2, h2) ->
    fst (invoke c b2 v' h2) = Throw (Error CssSelector.unique_message).

(** The stores that the constructor, the six category methods, [combine]
    and [stringify] produce from the empty store, methods being called on
    builders that exist. *)
Inductive reachable : CssSelector.heap -> Prop :=
| reachable_empty : reachable []
| reachable_new h :
    reachable h -> reachable (snd (CssSelector.new h))
| reachable_invoke h b c v :
    reachable h -> (b < List.length h)%nat -> reachable (snd (invoke c b v h))
| reachable_combine h a combinator b :
    reachable h -> (a < List.length h)%nat -> (b < List.length h)%nat ->
    reachable (snd (cssSelectorBuilder.combine a combinator b h))
| reachable_stringify h b :
    reachable h -> (b < List.length h)%nat ->
    reachable (snd (CssSelector.stringify b h)).

(** The types of the parts of an object, in append order. *)
Definition part_types (o : CssSelector.t) : list string :=
  type <$> CssSelector.parts o.

(** Parts appear in non-decreasing order-index. *)
Definition ordered (o : CssSelector.t) : Prop :=
  Sorted Z.le (order_index <$> part_types o).

(** Element, id and pseudo-element parts appear at most once each. *)
Definition singletons_unique (o : CssSelector.t) : Prop :=
  forall c, singleton c = true ->
            (count_occ String.string_dec (part_types o) (name c) <= 1)%nat.

(** What the methods maintain besides: [this.order] is the constructor's
    array, and a singleton category that has a part is in [usedParts]. *)
Definition well_formed (o : CssSelector.t) : Prop :=
  CssSelector.order o = CssSelector.order CssSelector.constructor /\
  ordered o /\
  singletons_unique o /\
  (forall c, singleton c = true ->
             name c ∈ part_types o -> name c ∈ CssSelector.usedParts o).

(** [element('a').attr('href').pseudoClass('focus')]. *)
Definition sample_calls : list (Category * string) :=
  [(Element, "a"); (Attr, "href"); (PseudoClass, "focus")].

(** The store after [element('div').id('main')] and [element('td')]. *)
Definition sample_store : list CssSelector.t :=
  [built [(Element, "div"); (Id, "main")]; built [(Element, "td")]].

(** The opaque part [combine] stores in [parts]. *)
Definition opaque (s : string) : Part := {| type := "combined"; value := s |}.

(** The test [stringify()] makes on a builder that has parts: the first
    part is an opaque part. *)
Definition is_combined (o : CssSelector.t) : bool :=
  match CssSelector.parts o with
  | p0 :: _ => String.eqb (type p0) "combined"
  | [] => false
  end.

(** What [parts] holds before any category call: nothing after the
    constructor, one opaque part after [combine]. *)
Definition initial_parts (pre : list Part) : Prop :=
  pre = [] \/ exists s, pre = [opaque s].

(** The object that the calls [cs] leave behind when made on an object
    whose [parts] was [pre] and whose [usedParts] was empty. *)
Definition built_on (pre : list Part) (cs : calls) : CssSelector.t :=
  {| CssSelector.parts := pre ++ ((fun x => part_of x.1 x.2) <$> cs);
     CssSelector.order := CssSelector.order CssSelector.constructor;
     CssSelector.usedParts := list_to_set ((fun x => name x.1) <$> cs) |}.

(** A sequence of calls the claims call valid. *)
Definition valid (cs : calls) : Prop := nondecreasing cs /\ singletons_once cs.

(** The state of an object after the calls [cs] have returned on it, one
    after the other. *)
Definition appended_all (cs : calls) (o : CssSelector.t) : CssSelector.t :=
  foldl (fun o x => appended x.1 x.2 o) o cs.

(** ** The primitives of the store *)

Section Primitives.

Import CssSelector.

Variables (h : heap) (l : loc) (o : t).
Hypothesis Hl : h !! l = Some o.

Lemma load_ok : load l h = (Normal o, h).
Proof using Hl. unfold load. now rewrite Hl. Qed.

Lemma getf_ok {A : Type} (f : t -> A) : getf f l h = (Normal (f o), h).
Proof using Hl. unfold getf, bind. now rewrite load_ok. Qed.

Lemma modify_ok (f : t -> t) : modify l f h = (Normal tt, <[ l := f o ]> h).
Proof using Hl. unfold modify, bind. now rewrite load_ok. Qed.

Lemma lookup_updated (o' : t) : <[ l := o' ]> h !! l = Some o'.
Proof using Hl.
  apply list_lookup_insert_eq. eapply lookup_lt_Some. exact Hl.
Qed.

Lemma validateOrder_eq (ty : string) :
  validateOrder l ty h =
  match raised o ty with
  | Some e => (Throw e, h)
  | None => (Normal tt, <[ l := set_usedParts (Js.add ty (usedParts o)) o ]> h)
  end.
Proof using Hl.
  unfold validateOrder, raised, order_violation, bind. rewrite (getf_ok parts).
  destruct (last (parts o)) as [lastPart|].
  - rewrite (getf_ok order).
    destruct (_ <? _); simpl; [reflexivity|].
    rewrite (getf_ok usedParts).
    destruct (_ && _); simpl; [reflexivity|].
    now rewrite modify_ok.
  - simpl. rewrite (getf_ok usedParts).
    destruct (_ && _); simpl; [reflexivity|].
    now rewrite modify_ok.
Qed.

Lemma stringify_eq : stringify l h = (Normal (text o), h).
Proof using Hl.
  unfold stringify, text, bind. rewrite (getf_ok parts).
  destruct (parts o) as [|p0 ps]; [reflexivity|].
  now destruct (String.eqb (type p0) "combined").
Qed.

End Primitives.

(** A category call on the object at [l]: it throws what [validateOrder]
    raises, with the store untouched, or it returns [l] itself with the
    part appended in place. *)
Lemma invoke_eq (c : Category) (v : string) (h : CssSelector.heap) (l : loc)
    (o : CssSelector.t) :
  h !! l = Some o ->
  invoke c l v h =
  match raised o (name c) with
  | Some e => (Throw e, h)
  | None => (Normal l, <[ l := appended c v o ]> h)
  end.
Proof.
  intros Hl.
  assert (Hgen : forall p,
    CssSelector.bind (CssSelector.validateOrder l (name c))
      (fun _ => CssSelector.bind (CssSelector.push l p)
                  (fun _ => CssSelector.ret l)) h =
    match raised o (name c) with
    | Some e => (Throw e, h)
    | None =>
        (Normal l,
         <[ l := CssSelector.set_parts (CssSelector.parts o ++ [p])
                   (CssSelector.set_usedParts
                      (Js.add (name c) (CssSelector.usedParts o)) o) ]> h)
    end).
  { intros p. unfold CssSelector.bind at 1.
    rewrite (validateOrder_eq h l o Hl).
    destruct (raised o (name c)); [reflexivity|].
    unfold CssSelector.bind, CssSelector.push.
    rewrite (modify_ok _ l _ (lookup_updated h l o Hl _)).
    now rewrite list_insert_insert_eq. }
  destruct c; exact (Hgen _).
Qed.

(** ** Sequences of category calls *)

Lemma append_empty_r (s : string) : s +:+ "" = s.
Proof.
  induction s as [|a s IH]; [reflexivity|].
  change (String a (s +:+ "") = String a s). now rewrite IH.
Qed.

Lemma join_empty_sep (l : list string) : Js.join "" l = concat_all l.
Proof.
  unfold Js.join, concat_all.
  induction l as [|x [|y l] IH]; [reflexivity| |].
  - simpl. now rewrite append_empty_r.
  - change (x +:+ "" +:+ String.concat "" (y :: l) = x +:+ foldr String.append "" (y :: l)).
    now rewrite IH.
Qed.

Lemma name_inj (c c' : Category) : name c = name c' -> c = c'.
Proof. destruct c, c'; simpl; congruence. Qed.

Lemma name_not_combined (c : Category) : String.eqb (name c) "combined" = false.
Proof. now destruct c. Qed.

(** The positions of the six category names in [this.order]. *)
Lemma order_index_name (c : Category) :
  order_index (name c) =
  match c with
  | Element => 0 | Id => 1 | Class => 2
  | Attr => 3 | PseudoClass => 4 | PseudoElement => 5
  end.
Proof. now destruct c. Qed.

Lemma has_true (s : gset string) (x : string) : Js.has s x = true <-> x ∈ s.
Proof. unfold Js.has. apply bool_decide_eq_true. Qed.

Lemma built_snoc (cs : calls) (c : Category) (v : string) :
  appended c v (built cs) = built (cs ++ [(c, v)]).
Proof.
  unfold appended, built, Js.add. simpl. f_equal.
  - now rewrite fmap_app.
  - rewrite fmap_app, list_to_set_app_L. simpl.
    rewrite (union_empty_r_L {[name c]}). apply (comm_L (∪)).
Qed.

Lemma occurrences_app (c : Category) (cs1 cs2 : calls) :
  occurrences c (cs1 ++ cs2) = (occurrences c cs1 + occurrences c cs2)%nat.
Proof. unfold occurrences. now rewrite fmap_app, count_occ_app. Qed.

(** A call that keeps the sequence valid raises nothing. *)
Lemma raised_valid (cs rest : calls) (c : Category) (v : string) :
  nondecreasing (cs ++ (c, v) :: rest) ->
  singletons_once (cs ++ (c, v) :: rest) ->
  raised (built cs) (name c) = None.
Proof.
  intros Hsorted Honce. unfold raised.
  assert (Hord : order_violation (built cs) (name c) = false).
  { unfold order_violation. simpl. rewrite fmap_last.
    destruct (last cs) as [[c' v']|] eqn:Hlast; [simpl|reflexivity].
    apply Z.ltb_ge. fold (order_index (name c')). fold (order_index (name c)).
    apply Sorted_StronglySorted in Hsorted; [|apply _].
    rewrite fmap_app in Hsorted.
    eapply (StronglySorted_app_1_elem_of _ _ _ _ _ Hsorted).
    - apply last_Some_elem_of in Hlast.
      apply (list_elem_of_fmap_2 (fun x => order_index (name x.1)) _ _ Hlast).
    - rewrite fmap_cons. apply list_elem_of_here. }
  rewrite Hord.
  destruct (Js.includes _ (name c)) eqn:Hsingle; [simpl|reflexivity].
  destruct (Js.has _ (name c)) eqn:Hhas; [exfalso|reflexivity].
  apply has_true in Hhas. simpl in Hhas.
  apply elem_of_list_to_set, list_elem_of_fmap in Hhas as [[c' v'] [Heq Hin]].
  apply name_inj in Heq. simpl in Heq. subst c'.
  specialize (Honce c Hsingle). rewrite occurrences_app in Honce.
  assert (0 < occurrences c cs)%nat.
  { unfold occurrences. apply count_occ_In, list_elem_of_In.
    apply (list_elem_of_fmap_2 fst _ _ Hin). }
  assert (0 < occurrences c ((c, v) :: rest))%nat.
  { unfold occurrences. rewrite fmap_cons. simpl.
    destruct (Category_eq_dec c c); [lia|congruence]. }
  lia.
Qed.

(** Valid calls chained on a builder all return, and leave the parts
    appended in call order. *)
Lemma chain_valid (rest cs : calls) (h : CssSelector.heap) (b : loc) :
  h !! b = Some (built cs) ->
  nondecreasing (cs ++ rest) ->
  singletons_once (cs ++ rest) ->
  chain b rest h = (Normal b, <[ b := built (cs ++ rest) ]> h).
Proof.
  revert cs h. induction rest as [|[c v] rest IH]; intros cs h Hb Hsorted Honce.
  - simpl. unfold CssSelector.ret. rewrite app_nil_r.
    now rewrite list_insert_id.
  - simpl. unfold CssSelector.bind. rewrite (invoke_eq c v h b _ Hb).
    rewrite (raised_valid cs rest c v Hsorted Honce), built_snoc.
    rewrite (IH (cs ++ [(c, v)])).
    + now rewrite list_insert_insert_eq, <- app_assoc.
    + now apply lookup_updated with (o := built cs).
    + now rewrite <- app_assoc.
    + now rewrite <- app_assoc.
Qed.

(** What [stringify()] returns on the object valid calls leave behind. *)
Lemma text_built (cs : calls) :
  text (built cs) = concat_all ((fun x => rendered x.1 x.2) <$> cs).
Proof.
  assert (Hvalues :
    map value ((fun x => part_of x.1 x.2) <$> cs) =
    (fun x => rendered x.1 x.2) <$> cs).
  { induction cs as [|x cs IH]; [reflexivity|].
    cbn. f_equal. exact IH. }
  unfold text. simpl CssSelector.parts. rewrite join_empty_sep, Hvalues.
  destruct cs as [|[c v] cs]; [reflexivity|].
  rewrite fmap_cons at 1. simpl type. now rewrite name_not_combined.
Qed.

(** [C1] Any sequence of category calls chained on a new builder, with
    order-indices that never go down and element, id and pseudo-element
    called at most once each, raises nothing, and [stringify()] then
    returns the prefixed values ('' element, '#' id, '.' class, '[..]'
    attribute, ':' pseudo-class, '::' pseudo-element) in call order with
    nothing in between.  Making the first call through the facade is the
    same computation.  [id('main').class('container').class('editable')]
    gives "#main.container.editable". *)
Theorem C1_valid_sequence_stringify (h : CssSelector.heap) (cs : calls) :
  nondecreasing cs ->
  singletons_once cs ->
  (exists h',
     (b <- CssSelector.new ;; chain b cs) h = (Normal (List.length h), h') /\
     CssSelector.stringify (List.length h) h' =
       (Normal (concat_all ((fun x => rendered x.1 x.2) <$> cs)), h')) /\
  (forall c v rest,
     cs = (c, v) :: rest ->
     (b <- facade c v ;; chain b rest) h = (b <- CssSelector.new ;; chain b cs) h) /\
  (b <- cssSelectorBuilder.id "main" ;;
   b <- CssSelector.class b "container" ;;
   b <- CssSelector.class b "editable" ;;
   CssSelector.stringify b) [] = (Normal "#main.container.editable", [built [(Id, "main"); (Class, "container"); (Class, "editable")]]).
Proof.
  intros Hsorted Honce.
  split; [|split; [intros c v rest ->; now destruct c|vm_compute; reflexivity]].
  assert (Hnew : (h ++ [CssSelector.constructor]) !! List.length h = Some (built [])).
  { now rewrite lookup_app_r, Nat.sub_diag by lia. }
  eexists. split.
  - unfold CssSelector.bind at 1, CssSelector.new.
    exact (chain_valid cs [] _ _ Hnew Hsorted Honce).
  - simpl app.
    erewrite stringify_eq; [|eapply lookup_updated; exact Hnew].
    now rewrite text_built.
Qed.

(** ** Calls on an address the store does not hold, and the frame of a call *)

Lemma invoke_dangling (c : Category) (v : string) (h : CssSelector.heap) (l : loc) :
  h !! l = None ->
  invoke c l v h = (Throw (TypeError CssSelector.not_an_object), h).
Proof.
  intros Hl.
  assert (Hgen : forall ty (k : unit -> CssSelector.M loc),
    CssSelector.bind (CssSelector.validateOrder l ty) k h =
    (Throw (TypeError CssSelector.not_an_object), h)).
  { intros ty k.
    unfold CssSelector.validateOrder, CssSelector.getf, CssSelector.load,
      CssSelector.bind.
    now rewrite Hl. }
  destruct c; apply Hgen.
Qed.

(** A category call that throws has touched nothing. *)
Lemma invoke_throw_unchanged (c : Category) (v : string) (h h' : CssSelector.heap)
    (l : loc) (e : exn) :
  invoke c l v h = (Throw e, h') -> h' = h.
Proof.
  intros Hcall. destruct (h !! l) as [o|] eqn:Hl.
  - rewrite (invoke_eq c v h l o Hl) in Hcall.
    destruct (raised o (name c)); congruence.
  - rewrite (invoke_dangling c v h l Hl) in Hcall. congruence.
Qed.

(** A category call touches no object but its receiver, and allocates
    nothing. *)
Lemma invoke_frame (c : Category) (v : string) (h : CssSelector.heap) (l l' : loc) :
  l' <> l -> snd (invoke c l v h) !! l' = h !! l'.
Proof.
  intros Hne. destruct (h !! l) as [o|] eqn:Hl.
  - rewrite (invoke_eq c v h l o Hl).
    destruct (raised o (name c)); simpl; [reflexivity|].
    now apply list_lookup_insert_ne.
  - now rewrite (invoke_dangling c v h l Hl).
Qed.

(** ** [combine] *)

Lemma combine_eq (h : CssSelector.heap) (a b : loc) (A B : CssSelector.t)
    (combinator : string) :
  h !! a = Some A -> h !! b = Some B ->
  CssSelector.combine a combinator b h =
  (Normal (List.length h), h ++ [combined_of (text A) combinator (text B)]).
Proof.
  intros Ha Hb.
  assert (Ha' : (h ++ [CssSelector.constructor]) !! a = Some A).
  { rewrite lookup_app_l; [exact Ha|]. eapply lookup_lt_Some, Ha. }
  assert (Hb' : (h ++ [CssSelector.constructor]) !! b = Some B).
  { rewrite lookup_app_l; [exact Hb|]. eapply lookup_lt_Some, Hb. }
  assert (Hnew : (h ++ [CssSelector.constructor]) !! List.length h
                 = Some CssSelector.constructor).
  { now rewrite lookup_app_r, Nat.sub_diag by lia. }
  unfold CssSelector.combine, CssSelector.bind, CssSelector.new.
  rewrite (stringify_eq _ a A Ha'), (stringify_eq _ b B Hb').
  rewrite (modify_ok _ _ _ Hnew). unfold CssSelector.ret.
  rewrite insert_app_r_alt, Nat.sub_diag by lia. reflexivity.
Qed.

Lemma text_combined_of (s1 combinator s2 : string) :
  text (combined_of s1 combinator s2) = s1 +:+ " " +:+ combinator +:+ " " +:+ s2.
Proof. reflexivity. Qed.

(** [C2] For builders [a] and [b], simple or made by [combine], and any
    combinator string, [combine(a, c, b)] returns a new builder whose
    [stringify()] is [a.stringify() + " " + c + " " + b.stringify()], one
    space on each side of the combinator whatever it holds; nesting
    [combine] calls composes, as in the three-level example. *)
Theorem C2_combine_stringify (h : CssSelector.heap) (a b : loc)
    (A B : CssSelector.t) (combinator : string) :
  h !! a = Some A -> h !! b = Some B ->
  (exists sa sb r h',
     CssSelector.stringify a h = (Normal sa, h) /\
     CssSelector.stringify b h = (Normal sb, h) /\
     cssSelectorBuilder.combine a combinator b h = (Normal r, h') /\
     h !! r = None /\
     CssSelector.stringify r h' =
       (Normal (sa +:+ " " +:+ combinator +:+ " " +:+ sb), h')) /\
  fst (nested_combine []) =
    Normal "div#main.container.draggable + table#data ~ tr:nth-of-type(even)   td:nth-of-type(even)".
Proof.
  intros Ha Hb. split; [|vm_compute; reflexivity].
  exists (text A), (text B), (List.length h),
    (h ++ [combined_of (text A) combinator (text B)]).
  split; [exact (stringify_eq h a A Ha)|].
  split; [exact (stringify_eq h b B Hb)|].
  split; [exact (combine_eq h a b A B combinator Ha Hb)|].
  split; [now apply lookup_ge_None_2|].
  rewrite <- text_combined_of. apply stringify_eq.
  now rewrite lookup_app_r, Nat.sub_diag by lia.
Qed.

(** ** Errors *)

(** [C3] On a builder with at least one part, a category call whose
    order-index is strictly below that of the last-appended part raises the
    ordering error, and the store is as before the call: no part is
    appended.  [id('x').element('y')] raises it. *)
Theorem C3_order_violation_raises (h : CssSelector.heap) (b : loc)
    (o : CssSelector.t) (lastPart : Part) (c : Category) (v : string) :
  h !! b = Some o ->
  CssSelector.order o = CssSelector.order CssSelector.constructor ->
  last (CssSelector.parts o) = Some lastPart ->
  order_index (name c) < order_index (type lastPart) ->
  invoke c b v h = (Throw (Error CssSelector.order_message), h) /\
  (b <- cssSelectorBuilder.id "x" ;; CssSelector.element b "y") [] =
    (Throw (Error CssSelector.order_message), [built [(Id, "x")]]).
Proof.
  intros Hb Hord Hlast Hlt. split; [|vm_compute; reflexivity].
  rewrite (invoke_eq c v h b o Hb). unfold raised, order_violation.
  rewrite Hlast, Hord. fold (order_index (name c)) (order_index (type lastPart)).
  now apply Z.ltb_lt in Hlt as ->.
Qed.

(** A category call that returned has recorded its category as used. *)
Lemma invoke_records (c : Category) (v : string) (h h' : CssSelector.heap)
    (b b' : loc) :
  invoke c b v h = (Normal b', h') ->
  exists o, h !! b = Some o /\ raised o (name c) = None /\
            b' = b /\ h' = <[ b := appended c v o ]> h.
Proof.
  intros Hcall. destruct (h !! b) as [o|] eqn:Hb.
  - rewrite (invoke_eq c v h b o Hb) in Hcall. exists o.
    destruct (raised o (name c)); [discriminate|].
    injection Hcall as <- <-. auto.
  - rewrite (invoke_dangling c v h b Hb) in Hcall. discriminate.
Qed.

(** Calls that returned never remove a category from [usedParts]. *)
Lemma chain_keeps_used (cs : calls) (h h' : CssSelector.heap) (b b' : loc)
    (o : CssSelector.t) :
  h !! b = Some o ->
  chain b cs h = (Normal b', h') ->
  b' = b /\ exists o', h' !! b = Some o' /\
                      CssSelector.usedParts o ⊆ CssSelector.usedParts o'.
Proof.
  revert h o. induction cs as [|[c v] cs IH]; intros h o Hb Hchain.
  - injection Hchain as <- <-. split; [reflexivity|]. now exists o.
  - simpl in Hchain. unfold CssSelector.bind in Hchain.
    destruct (invoke c b v h) as [[b1|e] h1] eqn:Hcall; [|discriminate].
    apply invoke_records in Hcall as (o0 & Hb0 & _ & -> & ->).
    assert (o0 = o) as -> by congruence.
    destruct (IH _ (appended c v o) (lookup_updated h b o Hb _) Hchain)
      as (-> & o' & Hb' & Hsub).
    split; [reflexivity|]. exists o'. split; [exact Hb'|].
    etransitivity; [|exact Hsub]. unfold appended, Js.add. simpl.
    apply union_subseteq_r.
Qed.

(** [C4], as the code has it: once element, id or pseudoElement has
    returned on a builder, every later call of the same method raises and
    leaves the store alone.  What it raises is the ordering error when the
    category sits before the type of the last-appended part, and the
    uniqueness error otherwise, which is the case of a call repeated at
    once, as in [id('a').id('b')]. *)
Theorem C4_repeated_singleton_raises (h h1 h2 : CssSelector.heap)
    (b b1 b2 : loc) (c : Category) (v v' : string) (cs : calls) :
  singleton c = true ->
  invoke c b v h = (Normal b1, h1) ->
  chain b1 cs h1 = (Normal b2, h2) ->
  (exists o2,
     h2 !! b2 = Some o2 /\
     invoke c b2 v' h2 =
       (Throw (Error (if order_violation o2 (name c)
                      then CssSelector.order_message
                      else CssSelector.unique_message)), h2)) /\
  (cs = [] -> invoke c b2 v' h2 = (Throw (Error CssSelector.unique_message), h2)) /\
  (b <- cssSelectorBuilder.id "a" ;; CssSelector.id b "b") [] =
    (Throw (Error CssSelector.unique_message), [built [(Id, "a")]]).
Proof.
  intros Hsingle Hfirst Hchain.
  apply invoke_records in Hfirst as (o & Hb & _ & -> & ->).
  pose proof (lookup_updated h b o Hb (appended c v o)) as Hb1.
  destruct (chain_keeps_used cs _ _ _ _ _ Hb1 Hchain) as (-> & o2 & Hb2 & Hsub).
  assert (Hused : Js.has (CssSelector.usedParts o2) (name c) = true).
  { apply has_true, Hsub. unfold appended, Js.add. simpl.
    apply elem_of_union_l, elem_of_singleton. reflexivity. }
  assert (Hagain : invoke c b v' h2 =
    (Throw (Error (if order_violation o2 (name c)
                   then CssSelector.order_message
                   else CssSelector.unique_message)), h2)).
  { rewrite (invoke_eq c v' h2 b o2 Hb2). unfold raised.
    destruct (order_violation o2 (name c)); [reflexivity|].
    unfold singleton in Hsingle. now rewrite Hsingle, Hused. }
  split; [exists o2; auto|]. split; [|vm_compute; reflexivity].
  intros ->. injection Hchain as <-. rewrite Hagain.
  assert (o2 = appended c v o) as -> by congruence.
  unfold order_violation, appended. simpl. rewrite last_snoc. simpl.
  now rewrite Z.ltb_irrefl.
Qed.

(** [element('a').id('b').element('c')]: the second [element] call raises
    the ordering error, which [validateOrder] tests first. *)
Lemma C4_counterexample :
  (b <- cssSelectorBuilder.element "a" ;;
   b <- CssSelector.id b "b" ;;
   CssSelector.element b "c") [] =
    (Throw (Error CssSelector.order_message), [built [(Element, "a"); (Id, "b")]]) /\
  ~ repeated_singleton_uniqueness.
Proof.
  split; [vm_compute; reflexivity|].
  intros Hclaim.
  specialize (Hclaim [CssSelector.constructor] [built [(Element, "a")]]
                [built [(Element, "a"); (Id, "b")]] 0%nat 0%nat 0%nat
                Element "a" "c" [(Id, "b")]).
  assert (Hcs : fst (invoke Element 0%nat "c" [built [(Element, "a"); (Id, "b")]])
                = Throw (Error CssSelector.unique_message)).
  { apply Hclaim; vm_compute; reflexivity. }
  vm_compute in Hcs. discriminate Hcs.
Qed.

(** [C5] A category call that raises leaves the store exactly as it was,
    parts and used categories of the receiver included, so any call made
    after catching the error behaves as if the failed call had not been
    made. *)
Theorem C5_failed_call_no_effect (h h' : CssSelector.heap) (b : loc)
    (c : Category) (v : string) (e : exn) :
  invoke c b v h = (Throw e, h') ->
  h' = h /\
  h' !! b = h !! b /\
  (forall c' v', invoke c' b v' h' = invoke c' b v' h).
Proof.
  intros Hcall. apply invoke_throw_unchanged in Hcall as ->. auto.
Qed.

(** ** Reachable stores and the builder invariant *)

Lemma well_formed_constructor : well_formed CssSelector.constructor.
Proof.
  split; [reflexivity|]. split; [constructor|].
  split; [intros c _; simpl; lia|].
  intros c _ Hin. now apply elem_of_nil in Hin.
Qed.

Lemma well_formed_combined_of (s1 combinator s2 : string) :
  well_formed (combined_of s1 combinator s2).
Proof.
  split; [reflexivity|]. split; [repeat constructor|].
  split.
  - intros c _.
    rewrite (proj1 (count_occ_not_In String.string_dec _ _)); [lia|].
    intros [Heq|[]]. destruct c; discriminate Heq.
  - intros c _ Hin. unfold part_types in Hin. simpl in Hin.
    apply list_elem_of_singleton in Hin. destruct c; discriminate Hin.
Qed.

Lemma raised_None (o : CssSelector.t) (ty : string) :
  raised o ty = None ->
  order_violation o ty = false /\
  (Js.includes ["element"; "id"; "pseudoElement"] ty = true ->
   ty ∉ CssSelector.usedParts o).
Proof.
  unfold raised. destruct (order_violation o ty); [discriminate|].
  intros Hnone. split; [reflexivity|]. intros Hincl Hin.
  apply has_true in Hin. now rewrite Hincl, Hin in Hnone.
Qed.

(** A category call that returns keeps its receiver well formed. *)
Lemma well_formed_appended (o : CssSelector.t) (c : Category) (v : string) :
  well_formed o -> raised o (name c) = None -> well_formed (appended c v o).
Proof.
  intros (Horder & Hsorted & Honce & Htracked) Hnone.
  apply raised_None in Hnone as [Hviol Hfresh].
  assert (Htypes : part_types (appended c v o) = part_types o ++ [name c]).
  { unfold part_types, appended. simpl. now rewrite fmap_app. }
  split; [exact Horder|]. split; [|split].
  - unfold ordered. rewrite Htypes, fmap_app. apply Sorted_snoc; [exact Hsorted|].
    unfold order_violation in Hviol. unfold part_types.
    destruct (last (CssSelector.parts o)) as [p|] eqn:Hlast.
    + apply last_Some in Hlast as [ps ->]. rewrite !fmap_app. simpl.
      constructor. rewrite Horder in Hviol. now apply Z.ltb_ge in Hviol.
    + apply last_None in Hlast as ->. constructor.
  - intros c' Hsingle. rewrite Htypes, count_occ_app. simpl.
    destruct (String.string_dec (name c) (name c')) as [Heq|Hne].
    + apply name_inj in Heq as <-.
      assert (Hnot : name c ∉ part_types o).
      { intros Hin. now apply (Hfresh Hsingle), Htracked. }
      rewrite list_elem_of_In in Hnot.
      apply (count_occ_not_In String.string_dec) in Hnot. lia.
    + specialize (Honce c' Hsingle). lia.
  - intros c' Hsingle Hin. rewrite Htypes in Hin. unfold appended, Js.add. simpl.
    apply elem_of_app in Hin as [Hin|Hin].
    + apply elem_of_union_r. now apply Htracked.
    + apply list_elem_of_singleton in Hin as ->.
      apply elem_of_union_l. now apply elem_of_singleton.
Qed.

(** Every object of a reachable store is well formed. *)
Lemma reachable_well_formed (h : CssSelector.heap) :
  reachable h -> Forall well_formed h.
Proof.
  induction 1 as [|h _ IH|h b c v _ IH Hb|h a combinator b _ IH Ha Hb|h b _ IH Hb].
  - constructor.
  - simpl. apply Forall_app. split; [exact IH|].
    constructor; [apply well_formed_constructor|constructor].
  - apply lookup_lt_is_Some_2 in Hb as [o Hb].
    rewrite (invoke_eq c v h b o Hb).
    destruct (raised o (name c)) eqn:Hraised; simpl; [exact IH|].
    apply Forall_insert; [exact IH|].
    apply well_formed_appended; [|exact Hraised].
    apply (proj1 (Forall_lookup _ _) IH b o Hb).
  - apply lookup_lt_is_Some_2 in Ha as [A Ha].
    apply lookup_lt_is_Some_2 in Hb as [B Hb].
    unfold cssSelectorBuilder.combine. rewrite (combine_eq h a b A B _ Ha Hb). simpl.
    apply Forall_app. split; [exact IH|].
    constructor; [apply well_formed_combined_of|constructor].
  - apply lookup_lt_is_Some_2 in Hb as [o Hb].
    now rewrite (stringify_eq h b o Hb).
Qed.

(** Any number of calls of one repeatable category is a valid sequence. *)
Lemma replicate_valid (c : Category) (v : string) (n : nat) :
  singleton c = false ->
  nondecreasing (replicate n (c, v)) /\ singletons_once (replicate n (c, v)).
Proof.
  intros Hrep. split.
  - unfold nondecreasing. rewrite fmap_replicate. simpl.
    induction n as [|n IH]; [constructor|].
    simpl. constructor; [exact IH|].
    destruct n; simpl; constructor. lia.
  - intros c' Hsingle. unfold occurrences. rewrite fmap_replicate. simpl.
    assert (Hne : c <> c') by (intros ->; congruence).
    induction n as [|n IH]; [simpl; lia|].
    simpl. destruct (Category_eq_dec c c'); [contradiction|exact IH].
Qed.

(** [C6] In every reachable store, every builder (a non-combined builder
    in particular; an opaque first part counts with index -1) has its parts
    in non-decreasing order-index, element=0, id=1, class=2, attribute=3,
    pseudo-class=4, pseudo-element=5, and at most one element, one id and
    one pseudo-element part; a category call that returns leaves a store
    where this holds again; and class, attribute and pseudo-class can be
    called any number of times in a row. *)
Theorem C6_builder_invariant (h : CssSelector.heap) :
  reachable h ->
  (forall b o, h !! b = Some o -> ordered o /\ singletons_unique o) /\
  (forall b c v b' h',
     invoke c b v h = (Normal b', h') ->
     forall l o, h' !! l = Some o -> ordered o /\ singletons_unique o) /\
  (forall c v n,
     singleton c = false ->
     (b <- CssSelector.new ;; chain b (replicate n (c, v))) h =
       (Normal (List.length h), h ++ [built (replicate n (c, v))])) /\
  (forall c,
     order_index (name c) =
     match c with
     | Element => 0 | Id => 1 | Class => 2
     | Attr => 3 | PseudoClass => 4 | PseudoElement => 5
     end).
Proof.
  intros Hreach.
  assert (Hall : forall h0, reachable h0 ->
            forall b o, h0 !! b = Some o -> ordered o /\ singletons_unique o).
  { intros h0 Hr b o Hb.
    destruct (proj1 (Forall_lookup _ _) (reachable_well_formed h0 Hr) b o Hb)
      as (_ & Hsorted & Honce & _).
    auto. }
  split; [exact (Hall h Hreach)|]. split; [|split; [|exact order_index_name]].
  - intros b c v b' h' Hcall.
    apply (Hall h').
    replace h' with (snd (invoke c b v h)) by now rewrite Hcall.
    apply reachable_invoke; [exact Hreach|].
    apply invoke_records in Hcall as (o & Hb & _).
    eapply lookup_lt_Some, Hb.
  - intros c v n Hrep.
    destruct (replicate_valid c v n Hrep) as [Hsorted Honce].
    unfold CssSelector.bind at 1, CssSelector.new.
    assert (Hnew : (h ++ [CssSelector.constructor]) !! List.length h = Some (built [])).
    { now rewrite lookup_app_r, Nat.sub_diag by lia. }
    rewrite (chain_valid _ [] _ _ Hnew Hsorted Honce). simpl app.
    now rewrite insert_app_r_alt, Nat.sub_diag by lia.
Qed.

(** ** The facade *)

Lemma raised_constructor (ty : string) : raised CssSelector.constructor ty = None.
Proof.
  unfold raised, order_violation. simpl.
  replace (Js.has ∅ ty) with false; [now rewrite andb_false_r|].
  symmetry. apply bool_decide_eq_false, not_elem_of_empty.
Qed.

Lemma lookup_allocated (h : CssSelector.heap) (o : CssSelector.t) :
  (h ++ [o]) !! List.length h = Some o.
Proof. now rewrite lookup_app_r, Nat.sub_diag by lia. Qed.

Lemma insert_allocated (h : CssSelector.heap) (o o' : CssSelector.t) :
  <[ List.length h := o' ]> (h ++ [o]) = h ++ [o'].
Proof. now rewrite insert_app_r_alt, Nat.sub_diag by lia. Qed.

(** [C7] Each facade entry point is the computation "construct a new
    builder, call the matching category method on it with the value": the
    same result and the same store from every store, namely a builder at a
    fresh address holding the one part; and the facade's [combine] is the
    class's static [combine]. *)
Theorem C7_facade_is_new_then_call (c : Category) (v : string) :
  facade c v = (b <- CssSelector.new ;; invoke c b v) /\
  (forall h, facade c v h = (Normal (List.length h), h ++ [built [(c, v)]])) /\
  (forall a combinator b,
     cssSelectorBuilder.combine a combinator b = CssSelector.combine a combinator b).
Proof.
  split; [now destruct c|]. split; [|reflexivity].
  intros h. replace (facade c v) with (b <- CssSelector.new ;; invoke c b v)
    by now destruct c.
  unfold CssSelector.bind, CssSelector.new.
  rewrite (invoke_eq c v _ _ _ (lookup_allocated h CssSelector.constructor)).
  rewrite raised_constructor, insert_allocated.
  now rewrite (built_snoc [] c v : appended c v CssSelector.constructor = built [(c, v)]).
Qed.

(** ** [stringify] *)

(** [C8] [stringify()] on a builder returns a string and never raises,
    leaves the store as it was so that calling it again gives the same
    string, and returns the empty string when there are no parts. *)
Theorem C8_stringify_pure (h : CssSelector.heap) (b : loc) (o : CssSelector.t) :
  h !! b = Some o ->
  exists s,
    CssSelector.stringify b h = (Normal s, h) /\
    (s1 <- CssSelector.stringify b ;;
     s2 <- CssSelector.stringify b ;;
     CssSelector.ret (s1, s2)) h = (Normal (s, s), h) /\
    (CssSelector.parts o = [] -> s = "").
Proof.
  intros Hb. exists (text o). split; [exact (stringify_eq h b o Hb)|]. split.
  - unfold CssSelector.bind. now rewrite !(stringify_eq h b o Hb).
  - intros Hempty. unfold text. now rewrite Hempty.
Qed.

(** ** Category calls on a combined builder *)

(** [C9] On the builder [combine] has just returned, any category call
    returns: the opaque part has type 'combined', which [this.order] does
    not hold, so its index is -1 and the ordering test cannot fire, and no
    category is used yet.  The part is appended after the opaque part, and
    [stringify()] still returns the combined string. *)
Theorem C9_call_on_combined (h : CssSelector.heap) (a b : loc)
    (A B : CssSelector.t) (combinator : string) (c : Category) (v : string) :
  h !! a = Some A -> h !! b = Some B ->
  exists r h1 h2 opaque o1 o2,
    cssSelectorBuilder.combine a combinator b h = (Normal r, h1) /\
    CssSelector.stringify r h1 = (Normal opaque, h1) /\
    h1 !! r = Some o1 /\
    CssSelector.parts o1 = [ {| type := "combined"; value := opaque |} ] /\
    order_index "combined" = -1 /\
    order_violation o1 (name c) = false /\
    raised o1 (name c) = None /\
    invoke c r v h1 = (Normal r, h2) /\
    h2 !! r = Some o2 /\
    CssSelector.parts o2 = [ {| type := "combined"; value := opaque |}; part_of c v ] /\
    CssSelector.stringify r h2 = (Normal opaque, h2).
Proof.
  intros Ha Hb.
  set (o1 := combined_of (text A) combinator (text B)).
  assert (Hr : (h ++ [o1]) !! List.length h = Some o1) by apply lookup_allocated.
  assert (Hnone : raised o1 (name c) = None).
  { unfold raised, order_violation. simpl.
    replace (Js.has ∅ (name c)) with false
      by (symmetry; apply bool_decide_eq_false, not_elem_of_empty).
    now destruct c. }
  exists (List.length h), (h ++ [o1]), (h ++ [appended c v o1]), (text o1),
    o1, (appended c v o1).
  split; [exact (combine_eq h a b A B combinator Ha Hb)|].
  split; [exact (stringify_eq _ _ _ Hr)|].
  split; [exact Hr|]. split; [reflexivity|]. split; [reflexivity|].
  split; [now apply raised_None in Hnone|]. split; [exact Hnone|].
  split; [now rewrite (invoke_eq c v _ _ _ Hr), Hnone, insert_allocated|].
  split; [apply lookup_allocated|]. split; [reflexivity|].
  exact (stringify_eq _ _ _ (lookup_allocated h (appended c v o1))).
Qed.

(** ** The frame of [combine] *)

(** [C10] [combine(a, c, b)] leaves every builder of the store, [a] and
    [b] among them, as it was; what it reads of them is what their
    [stringify()] returns; and the builder it returns is at an address the
    store did not hold: calls on it leave [a] and [b] alone, and calls on
    [a] or [b] leave it alone. *)
Theorem C10_combine_frame (h : CssSelector.heap) (a b : loc)
    (A B : CssSelector.t) (combinator : string) :
  h !! a = Some A -> h !! b = Some B ->
  exists r h' sa sb,
    CssSelector.combine a combinator b h = (Normal r, h') /\
    h !! r = None /\ r <> a /\ r <> b /\
    (forall l o, h !! l = Some o -> h' !! l = Some o) /\
    h' !! a = Some A /\ h' !! b = Some B /\
    CssSelector.stringify a h = (Normal sa, h) /\
    CssSelector.stringify b h = (Normal sb, h) /\
    h' !! r = Some (combined_of sa combinator sb) /\
    (forall c v, snd (invoke c r v h') !! a = Some A /\
                 snd (invoke c r v h') !! b = Some B) /\
    (forall c v l, l = a \/ l = b ->
                   snd (invoke c l v h') !! r = h' !! r).
Proof.
  intros Ha Hb.
  pose proof (lookup_lt_Some _ _ _ Ha) as Hlta.
  pose proof (lookup_lt_Some _ _ _ Hb) as Hltb.
  assert (Hold : forall l o, h !! l = Some o ->
            (h ++ [combined_of (text A) combinator (text B)]) !! l = Some o).
  { intros l o Hl. rewrite lookup_app_l; [exact Hl|]. eapply lookup_lt_Some, Hl. }
  exists (List.length h), (h ++ [combined_of (text A) combinator (text B)]),
    (text A), (text B).
  split; [exact (combine_eq h a b A B combinator Ha Hb)|].
  split; [now apply lookup_ge_None_2|].
  split; [lia|]. split; [lia|]. split; [exact Hold|].
  split; [now apply Hold|]. split; [now apply Hold|].
  split; [exact (stringify_eq h a A Ha)|].
  split; [exact (stringify_eq h b B Hb)|].
  split; [apply lookup_allocated|]. split.
  - intros c v. rewrite !invoke_frame by lia. split; now apply Hold.
  - intros c v l Hl. apply invoke_frame. destruct Hl as [-> | ->]; lia.
Qed.

(** ** The theorems at concrete builders *)

(** [C1] at [element('a').attr('href').pseudoClass('focus')] on the empty
    store. *)
Lemma C1_witness :
  nondecreasing sample_calls /\
  singletons_once sample_calls /\
  exists h',
    (b <- CssSelector.new ;; chain b sample_calls) [] = (Normal 0%nat, h') /\
    CssSelector.stringify 0%nat h' = (Normal "a[href]:focus", h').
Proof.
  assert (Hsorted : nondecreasing sample_calls).
  { unfold nondecreasing. vm_compute. repeat constructor; discriminate. }
  assert (Honce : singletons_once sample_calls).
  { intros c _. destruct c; vm_compute; lia. }
  split; [exact Hsorted|]. split; [exact Honce|].
  destruct (C1_valid_sequence_stringify [] sample_calls Hsorted Honce)
    as [(h' & Hrun & Htext) _].
  exists h'. split; [exact Hrun|exact Htext].
Defined.

(** [C2] at [combine(div#main, '>', td)]. *)
Lemma C2_witness :
  sample_store !! 0%nat = Some (built [(Element, "div"); (Id, "main")]) /\
  sample_store !! 1%nat = Some (built [(Element, "td")]) /\
  exists sa sb r h',
    CssSelector.stringify 0%nat sample_store = (Normal sa, sample_store) /\
    CssSelector.stringify 1%nat sample_store = (Normal sb, sample_store) /\
    cssSelectorBuilder.combine 0%nat ">" 1%nat sample_store = (Normal r, h') /\
    CssSelector.stringify r h' = (Normal (sa +:+ " " +:+ ">" +:+ " " +:+ sb), h').
Proof.
  split; [reflexivity|]. split; [reflexivity|].
  destruct (C2_combine_stringify sample_store 0%nat 1%nat _ _ ">" eq_refl eq_refl)
    as [(sa & sb & r & h' & Hsa & Hsb & Hcombine & _ & Htext) _].
  exists sa, sb, r, h'. auto.
Defined.

(** [C3] at [id('x').element('y')]. *)
Lemma C3_witness :
  [built [(Id, "x")]] !! 0%nat = Some (built [(Id, "x")]) /\
  CssSelector.order (built [(Id, "x")]) = CssSelector.order CssSelector.constructor /\
  last (CssSelector.parts (built [(Id, "x")])) = Some (part_of Id "x") /\
  order_index (name Element) < order_index (type (part_of Id "x")) /\
  invoke Element 0%nat "y" [built [(Id, "x")]] =
    (Throw (Error CssSelector.order_message), [built [(Id, "x")]]).
Proof.
  assert (Hlt : order_index (name Element) < order_index (type (part_of Id "x"))).
  { vm_compute. reflexivity. }
  split; [reflexivity|]. split; [reflexivity|]. split; [reflexivity|].
  split; [exact Hlt|].
  exact (proj1 (C3_order_violation_raises [built [(Id, "x")]] 0%nat
                  (built [(Id, "x")]) (part_of Id "x") Element "y"
                  eq_refl eq_refl eq_refl Hlt)).
Defined.

(** [C4] at [id('a').class('k').id('b')]. *)
Lemma C4_witness :
  singleton Id = true /\
  invoke Id 0%nat "a" [CssSelector.constructor] =
    (Normal 0%nat, [built [(Id, "a")]]) /\
  chain 0%nat [(Class, "k")] [built [(Id, "a")]] =
    (Normal 0%nat, [built [(Id, "a"); (Class, "k")]]) /\
  exists o2,
    [built [(Id, "a"); (Class, "k")]] !! 0%nat = Some o2 /\
    invoke Id 0%nat "b" [built [(Id, "a"); (Class, "k")]] =
      (Throw (Error (if order_violation o2 (name Id)
                     then CssSelector.order_message
                     else CssSelector.unique_message)),
       [built [(Id, "a"); (Class, "k")]]).
Proof.
  assert (Hfirst : invoke Id 0%nat "a" [CssSelector.constructor] =
                   (Normal 0%nat, [built [(Id, "a")]])).
  { vm_compute. reflexivity. }
  assert (Hchain : chain 0%nat [(Class, "k")] [built [(Id, "a")]] =
                   (Normal 0%nat, [built [(Id, "a"); (Class, "k")]])).
  { vm_compute. reflexivity. }
  split; [reflexivity|]. split; [exact Hfirst|]. split; [exact Hchain|].
  exact (proj1 (C4_repeated_singleton_raises _ _ _ _ _ _ Id "a" "b" _
                  eq_refl Hfirst Hchain)).
Defined.

(** [C5] at [id('a').id('b')]. *)
Lemma C5_witness :
  invoke Id 0%nat "b" [built [(Id, "a")]] =
    (Throw (Error CssSelector.unique_message), [built [(Id, "a")]]) /\
  [built [(Id, "a")]] = [built [(Id, "a")]] /\
  forall c' v',
    invoke c' 0%nat v' [built [(Id, "a")]] = invoke c' 0%nat v' [built [(Id, "a")]].
Proof.
  assert (Hcall : invoke Id 0%nat "b" [built [(Id, "a")]] =
                  (Throw (Error CssSelector.unique_message), [built [(Id, "a")]])).
  { vm_compute. reflexivity. }
  split; [exact Hcall|].
  destruct (C5_failed_call_no_effect _ _ _ _ _ _ Hcall) as (Hsame & _ & Hnext).
  split; [exact Hsame|exact Hnext].
Defined.

(** [C6] at the store after [id('main').class('container')]. *)
Lemma C6_witness :
  reachable [built [(Id, "main"); (Class, "container")]] /\
  forall b o,
    [built [(Id, "main"); (Class, "container")]] !! b = Some o ->
    ordered o /\ singletons_unique o.
Proof.
  assert (Hreach : reachable [built [(Id, "main"); (Class, "container")]]).
  { replace [built [(Id, "main"); (Class, "container")]]
      with (snd (invoke Class 0%nat "container"
                   (snd (invoke Id 0%nat "main" (snd (CssSelector.new []))))))
      by (vm_compute; reflexivity).
    apply reachable_invoke; [apply reachable_invoke|].
    - apply reachable_new, reachable_empty.
    - vm_compute. lia.
    - vm_compute. lia. }
  split; [exact Hreach|].
  exact (proj1 (C6_builder_invariant _ Hreach)).
Defined.

(** [C8] at the builder [div#main]. *)
Lemma C8_witness :
  sample_store !! 0%nat = Some (built [(Element, "div"); (Id, "main")]) /\
  exists s,
    CssSelector.stringify 0%nat sample_store = (Normal s, sample_store) /\
    (s1 <- CssSelector.stringify 0%nat ;;
     s2 <- CssSelector.stringify 0%nat ;;
     CssSelector.ret (s1, s2)) sample_store = (Normal (s, s), sample_store).
Proof.
  split; [reflexivity|].
  destruct (C8_stringify_pure sample_store 0%nat _ eq_refl) as (s & Hs & Htwice & _).
  exists s. split; [exact Hs|exact Htwice].
Defined.

(** [C9] at [combine(div#main, '+', td).element('p')]. *)
Lemma C9_witness :
  sample_store !! 0%nat = Some (built [(Element, "div"); (Id, "main")]) /\
  sample_store !! 1%nat = Some (built [(Element, "td")]) /\
  exists r h1 h2 opaque,
    cssSelectorBuilder.combine 0%nat "+" 1%nat sample_store = (Normal r, h1) /\
    CssSelector.stringify r h1 = (Normal opaque, h1) /\
    invoke Element r "p" h1 = (Normal r, h2) /\
    CssSelector.stringify r h2 = (Normal opaque, h2).
Proof.
  split; [reflexivity|]. split; [reflexivity|].
  destruct (C9_call_on_combined sample_store 0%nat 1%nat _ _ "+" Element "p"
              eq_refl eq_refl)
    as (r & h1 & h2 & opaque & o1 & o2 & Hcombine & Htext & _ & _ & _ & _ & _
        & Hcall & _ & _ & Htext').
  exists r, h1, h2, opaque. auto.
Defined.

(** [C10] at [combine(div#main, '~', td)]. *)
Lemma C10_witness :
  sample_store !! 0%nat = Some (built [(Element, "div"); (Id, "main")]) /\
  sample_store !! 1%nat = Some (built [(Element, "td")]) /\
  exists r h',
    CssSelector.combine 0%nat "~" 1%nat sample_store = (Normal r, h') /\
    sample_store !! r = None /\
    h' !! 0%nat = Some (built [(Element, "div"); (Id, "main")]) /\
    h' !! 1%nat = Some (built [(Element, "td")]).
Proof.
  split; [reflexivity|]. split; [reflexivity|].
  destruct (C10_combine_frame sample_store 0%nat 1%nat _ _ "~" eq_refl eq_refl)
    as (r & h' & sa & sb & Hcombine & Hfresh & _ & _ & _ & Ha & Hb & _).
  exists r, h'. auto.
Defined.

(** ** Beyond the claims: strings and parts *)

Lemma append_assoc (a b c : string) : (a +:+ b) +:+ c = a +:+ b +:+ c.
Proof.
  induction a as [|x a IH]; [reflexivity|].
  change (String x ((a +:+ b) +:+ c) = String x (a +:+ b +:+ c)). now rewrite IH.
Qed.

Lemma concat_all_app (l1 l2 : list string) :
  concat_all (l1 ++ l2) = concat_all l1 +:+ concat_all l2.
Proof.
  unfold concat_all. induction l1 as [|x l1 IH]; [reflexivity|].
  simpl. now rewrite IH, append_assoc.
Qed.

Lemma values_part_of (cs : calls) :
  map value ((fun x => part_of x.1 x.2) <$> cs) = (fun x => rendered x.1 x.2) <$> cs.
Proof. induction cs as [|x cs IH]; [reflexivity|]. cbn. f_equal. exact IH. Qed.

Lemma text_not_combined (o : CssSelector.t) :
  is_combined o = false -> text o = concat_all (map value (CssSelector.parts o)).
Proof.
  unfold is_combined, text. destruct (CssSelector.parts o) as [|p0 ps]; [reflexivity|].
  intros ->. apply join_empty_sep.
Qed.

Lemma text_is_combined (o : CssSelector.t) :
  is_combined o = true ->
  exists p0 ps, CssSelector.parts o = p0 :: ps /\ text o = value p0.
Proof.
  unfold is_combined, text. destruct (CssSelector.parts o) as [|p0 ps]; [discriminate|].
  intros ->. now exists p0, ps.
Qed.

Lemma parts_appended_all (cs : calls) (o : CssSelector.t) :
  CssSelector.parts (appended_all cs o) =
  CssSelector.parts o ++ ((fun x => part_of x.1 x.2) <$> cs).
Proof.
  revert o. induction cs as [|[c v] cs IH]; intros o.
  - simpl. now rewrite app_nil_r.
  - change (appended_all ((c, v) :: cs) o) with (appended_all cs (appended c v o)).
    rewrite IH, fmap_cons. simpl. now rewrite <- app_assoc.
Qed.

(** A chain of calls runs the calls up to the first that throws: the store
    changes at the receiver only, which has the parts of those calls
    appended. *)
Lemma chain_run (cs : calls) (h : CssSelector.heap) (b : loc) (o : CssSelector.t) :
  h !! b = Some o ->
  exists k : nat,
    (k <= List.length cs)%nat /\
    snd (chain b cs h) = <[ b := appended_all (take k cs) o ]> h /\
    match fst (chain b cs h) with
    | Normal b' => b' = b /\ k = List.length cs
    | Throw e => (k < List.length cs)%nat
    end.
Proof.
  revert h o. induction cs as [|[c v] cs IH]; intros h o Hb.
  - exists 0%nat. simpl. split; [lia|]. split; [|auto].
    now rewrite list_insert_id.
  - simpl chain. unfold CssSelector.bind. rewrite (invoke_eq c v h b o Hb).
    destruct (raised o (name c)) as [e|].
    + exists 0%nat. simpl. split; [lia|]. split; [|lia].
      now rewrite list_insert_id.
    + destruct (IH _ (appended c v o) (lookup_updated h b o Hb _))
        as (k & Hk & Hstore & Hres).
      exists (S k). simpl List.length. split; [lia|]. split.
      * rewrite Hstore, list_insert_insert_eq. reflexivity.
      * destruct (fst (chain b cs (<[b:=appended c v o]> h))); [|lia].
        destruct Hres as [-> ->]. auto.
Qed.

(** ** Beyond the claims: which calls a builder accepts *)

Lemma valid_prefix (cs1 cs2 : calls) : valid (cs1 ++ cs2) -> valid cs1.
Proof.
  intros [Hsorted Honce]. split.
  - unfold nondecreasing in *. rewrite fmap_app in Hsorted.
    apply Sorted_StronglySorted in Hsorted; [|apply _].
    apply StronglySorted_app_1_l in Hsorted.
    now apply Sorted.StronglySorted_Sorted.
  - intros c Hsingle. specialize (Honce c Hsingle).
    rewrite occurrences_app in Honce. lia.
Qed.

Lemma nondecreasing_snoc (cs : calls) (c : Category) (v : string) :
  nondecreasing cs ->
  nondecreasing (cs ++ [(c, v)]) <->
  match last cs with
  | Some x => order_index (name x.1) <= order_index (name c)
  | None => True
  end.
Proof.
  intros Hsorted. unfold nondecreasing in *. rewrite fmap_app. simpl.
  destruct (last cs) as [x|] eqn:Hlast.
  - split.
    + intros H. apply Sorted_StronglySorted in H; [|apply _].
      apply (StronglySorted_app_1_elem_of _ _ _ _ _ H).
      * apply last_Some_elem_of in Hlast.
        apply (list_elem_of_fmap_2 (fun x => order_index (name x.1)) _ _ Hlast).
      * apply list_elem_of_here.
    + intros Hle. apply Sorted_snoc; [exact Hsorted|].
      apply last_Some in Hlast as [cs' ->]. rewrite fmap_app. simpl.
      now constructor.
  - apply last_None in Hlast as ->. simpl. split; [auto|].
    intros _. repeat constructor.
Qed.

Lemma occurrences_single (c c' : Category) (v : string) :
  occurrences c' [(c, v)] = if decide (c = c') then 1%nat else 0%nat.
Proof.
  unfold occurrences. simpl.
  destruct (Category_eq_dec c c'), (decide (c = c')); congruence.
Qed.

Lemma singletons_once_snoc (cs : calls) (c : Category) (v : string) :
  singletons_once cs ->
  singletons_once (cs ++ [(c, v)]) <->
  (singleton c = true -> occurrences c cs = 0%nat).
Proof.
  intros Honce. split.
  - intros H Hsingle. specialize (H c Hsingle).
    rewrite occurrences_app, occurrences_single in H.
    destruct (decide (c = c)); [lia|congruence].
  - intros H c' Hsingle. rewrite occurrences_app, occurrences_single.
    destruct (decide (c = c')) as [<-|_].
    + rewrite (H Hsingle). lia.
    + specialize (Honce c' Hsingle). lia.
Qed.

Lemma used_built_on (pre : list Part) (cs : calls) (c : Category) :
  name c ∈ CssSelector.usedParts (built_on pre cs) <-> (0 < occurrences c cs)%nat.
Proof.
  simpl. unfold occurrences.
  change (0 < count_occ Category_eq_dec (fst <$> cs) c)%nat
    with (count_occ Category_eq_dec (fst <$> cs) c > 0)%nat.
  rewrite elem_of_list_to_set, list_elem_of_fmap, <- count_occ_In, <- list_elem_of_In,
    list_elem_of_fmap.
  split.
  - intros ([c' v'] & Heq & Hin). apply name_inj in Heq. simpl in Heq. subst c'.
    now exists (c, v').
  - intros ([c' v'] & -> & Hin). now exists (c', v').
Qed.

Lemma order_violation_built_on (pre : list Part) (cs : calls) (c : Category) :
  initial_parts pre ->
  order_violation (built_on pre cs) (name c) =
  match last cs with
  | Some x => order_index (name c) <? order_index (name x.1)
  | None => false
  end.
Proof.
  intros Hpre. unfold order_violation. simpl.
  destruct (last cs) as [x|] eqn:Hlast.
  - apply last_Some in Hlast as [cs' ->].
    rewrite fmap_app, app_assoc.
    change ((fun x => part_of x.1 x.2) <$> [x]) with [part_of x.1 x.2].
    now rewrite last_snoc.
  - apply last_None in Hlast as ->. simpl. rewrite app_nil_r.
    destruct Hpre as [->|[s ->]]; [reflexivity|]. now destruct c.
Qed.

Lemma built_on_snoc (pre : list Part) (cs : calls) (c : Category) (v : string) :
  appended c v (built_on pre cs) = built_on pre (cs ++ [(c, v)]).
Proof.
  unfold appended, built_on, Js.add. simpl. f_equal.
  - now rewrite fmap_app, app_assoc.
  - rewrite fmap_app, list_to_set_app_L. simpl.
    rewrite (union_empty_r_L {[name c]}). apply (comm_L (∪)).
Qed.

(** On a builder that valid calls have built, a further call returns
    exactly when the longer sequence is valid. *)
Lemma raised_built_on (pre : list Part) (cs : calls) (c : Category) (v : string) :
  initial_parts pre -> valid cs ->
  raised (built_on pre cs) (name c) = None <-> valid (cs ++ [(c, v)]).
Proof.
  intros Hpre [Hsorted Honce]. unfold valid.
  rewrite (nondecreasing_snoc cs c v Hsorted), (singletons_once_snoc cs c v Honce).
  unfold raised. rewrite (order_violation_built_on pre cs c Hpre).
  fold (singleton c).
  assert (Hused : Js.has (CssSelector.usedParts (built_on pre cs)) (name c) = true
                  <-> occurrences c cs <> 0%nat).
  { rewrite has_true, used_built_on. lia. }
  destruct (last cs) as [x|].
  - destruct (Z.ltb_spec (order_index (name c)) (order_index (name x.1))) as [Hlt|Hle].
    + split; [discriminate|]. intros [Hle _]. lia.
    + destruct (singleton c); simpl.
      * destruct (Js.has _ (name c)).
        -- split; [discriminate|]. intros [_ H]. now apply Hused in H.
        -- split; [|reflexivity]. intros _. split; [exact Hle|]. intros _.
           destruct (occurrences c cs); [reflexivity|].
           now assert (false = true) by (apply Hused; lia).
      * split; [|reflexivity]. intros _. split; [exact Hle|discriminate].
  - destruct (singleton c); simpl.
    + destruct (Js.has _ (name c)).
      * split; [discriminate|]. intros [_ H]. now apply Hused in H.
      * split; [|reflexivity]. intros _. split; [exact I|]. intros _.
        destruct (occurrences c cs); [reflexivity|].
        now assert (false = true) by (apply Hused; lia).
    + split; [|reflexivity]. intros _. split; [exact I|discriminate].
Qed.

(** Calls chained on such a builder all return exactly when the whole
    sequence is valid, and then leave its parts appended. *)
Lemma chain_built_on (rest done : calls) (pre : list Part) (h : CssSelector.heap)
    (b : loc) :
  initial_parts pre ->
  h !! b = Some (built_on pre done) ->
  valid done ->
  (valid (done ++ rest) ->
   chain b rest h = (Normal b, <[ b := built_on pre (done ++ rest) ]> h)) /\
  (forall b' h', chain b rest h = (Normal b', h') -> valid (done ++ rest)).
Proof.
  intros Hpre. revert done h.
  induction rest as [|[c v] rest IH]; intros done h Hb Hdone.
  - rewrite app_nil_r. split; [|auto].
    intros _. simpl. unfold CssSelector.ret. now rewrite list_insert_id.
  - simpl chain. unfold CssSelector.bind. rewrite (invoke_eq c v h b _ Hb).
    replace (done ++ (c, v) :: rest) with ((done ++ [(c, v)]) ++ rest)
      by now rewrite <- app_assoc.
    pose proof (raised_built_on pre done c v Hpre Hdone) as Hstep.
    split.
    + intros Hall. pose proof (valid_prefix _ _ Hall) as Hnext.
      rewrite (proj2 Hstep Hnext), built_on_snoc.
      destruct (IH (done ++ [(c, v)]) (<[b:=built_on pre (done ++ [(c, v)])]> h))
        as [Hrun _]; [now apply lookup_updated with (o := built_on pre done)|exact Hnext|].
      now rewrite (Hrun Hall), list_insert_insert_eq.
    + intros b' h'. destruct (raised (built_on pre done) (name c)) eqn:Hraised;
        [discriminate|].
      pose proof (proj1 Hstep eq_refl) as Hnext. rewrite built_on_snoc.
      destruct (IH (done ++ [(c, v)]) (<[b:=built_on pre (done ++ [(c, v)])]> h))
        as [_ Hback]; [now apply lookup_updated with (o := built_on pre done)|exact Hnext|].
      apply Hback.
Qed.

Lemma valid_nil : valid [].
Proof. split; [constructor|]. intros c _. unfold occurrences. simpl. lia. Qed.


(** Every builder of a reachable store is what a valid sequence of calls
    leaves on a new builder or on one just returned by [combine]. *)
Lemma reachable_built_on (h : CssSelector.heap) :
  reachable h ->
  Forall (fun o => exists pre cs, initial_parts pre /\ valid cs /\ o = built_on pre cs) h.
Proof.
  induction 1 as [|h _ IH|h b c v _ IH Hb|h a combinator b _ IH Ha Hb|h b _ IH Hb].
  - constructor.
  - simpl. apply Forall_app. split; [exact IH|].
    constructor; [|constructor].
    exists [], []. split; [now left|]. split; [apply valid_nil|reflexivity].
  - apply lookup_lt_is_Some_2 in Hb as [o Hb].
    rewrite (invoke_eq c v h b o Hb).
    destruct (raised o (name c)) eqn:Hraised; simpl; [exact IH|].
    apply Forall_insert; [exact IH|].
    destruct (proj1 (Forall_lookup _ _) IH b o Hb) as (pre & cs & Hpre & Hvalid & ->).
    exists pre, (cs ++ [(c, v)]). split; [exact Hpre|]. split.
    + now apply (raised_built_on pre cs c v Hpre Hvalid).
    + apply built_on_snoc.
  - apply lookup_lt_is_Some_2 in Ha as [A Ha].
    apply lookup_lt_is_Some_2 in Hb as [B Hb].
    unfold cssSelectorBuilder.combine. rewrite (combine_eq h a b A B _ Ha Hb). simpl.
    apply Forall_app. split; [exact IH|].
    constructor; [|constructor].
    exists [opaque (text A +:+ " " +:+ combinator +:+ " " +:+ text B)], [].
    split; [right; eauto|]. split; [apply valid_nil|reflexivity].
  - apply lookup_lt_is_Some_2 in Hb as [o Hb].
    now rewrite (stringify_eq h b o Hb).
Qed.

(** ** Beyond the claims: the properties *)

(** [X1] The calls chained on a new builder all return exactly when their
    order-indices never go down and element, id and pseudo-element are
    called at most once each: the builder accepts the valid sequences and
    no other. *)
Theorem X1_new_builder_accepts_exactly_valid (h : CssSelector.heap) (cs : calls) :
  (exists b' h', (b <- CssSelector.new ;; chain b cs) h = (Normal b', h')) <->
  nondecreasing cs /\ singletons_once cs.
Proof.
  unfold CssSelector.bind at 1, CssSelector.new.
  destruct (chain_built_on cs [] [] (h ++ [CssSelector.constructor]) (List.length h)
              (or_introl eq_refl) (lookup_allocated h CssSelector.constructor) valid_nil)
    as [Hrun Hback].
  split.
  - intros (b' & h' & Hchain). exact (Hback b' h' Hchain).
  - intros Hvalid. rewrite (Hrun Hvalid). eauto.
Qed.

(** [X2] In a reachable store every builder has one of two shapes.  Either
    its parts are those of a valid sequence of calls, and [stringify()]
    returns their prefixed values in order; or its parts are one opaque
    part followed by those of a valid sequence of calls, and [stringify()]
    returns the opaque string.  In both, [usedParts] is the set of the
    categories called and [order] is the constructor's array. *)
Theorem X2_reachable_builder_shape (h : CssSelector.heap) (b : loc)
    (o : CssSelector.t) :
  reachable h -> h !! b = Some o ->
  exists pre cs,
    o = built_on pre cs /\
    nondecreasing cs /\ singletons_once cs /\
    ((pre = [] /\
      CssSelector.stringify b h =
        (Normal (concat_all ((fun x => rendered x.1 x.2) <$> cs)), h)) \/
     (exists s, pre = [opaque s] /\
                CssSelector.stringify b h = (Normal s, h))).
Proof.
  intros Hreach Hb.
  destruct (proj1 (Forall_lookup _ _) (reachable_built_on h Hreach) b o Hb)
    as (pre & cs & Hpre & [Hsorted Honce] & ->).
  exists pre, cs. split; [reflexivity|]. split; [exact Hsorted|]. split; [exact Honce|].
  rewrite (stringify_eq h b _ Hb).
  destruct Hpre as [->|[s ->]].
  - left. split; [reflexivity|]. now rewrite <- text_built.
  - right. exists s. auto.
Qed.


(** [X4] On a builder that is not combined, [stringify()] follows the
    calls: after a chain that returned, it is the string from before the
    chain followed by the prefixed values of the calls. *)
Theorem X4_stringify_follows_calls (h h' : CssSelector.heap) (b b' : loc)
    (o : CssSelector.t) (cs : calls) :
  h !! b = Some o ->
  is_combined o = false ->
  chain b cs h = (Normal b', h') ->
  exists s,
    CssSelector.stringify b h = (Normal s, h) /\
    CssSelector.stringify b' h' =
      (Normal (s +:+ concat_all ((fun x => rendered x.1 x.2) <$> cs)), h').
Proof.
  intros Hb Hplain Hchain.
  destruct (chain_run cs h b o Hb) as (k & _ & Hstore & Hres).
  rewrite Hchain in Hstore, Hres. simpl in Hstore, Hres.
  destruct Hres as [-> ->]. rewrite take_ge in Hstore by lia. subst h'.
  exists (text o). split; [exact (stringify_eq h b o Hb)|].
  rewrite (stringify_eq _ b _ (lookup_updated h b o Hb (appended_all cs o))).
  f_equal. f_equal.
  assert (Hplain' : is_combined (appended_all cs o) = false).
  { unfold is_combined in *. rewrite parts_appended_all.
    destruct (CssSelector.parts o) as [|p0 ps]; [|exact Hplain].
    destruct cs as [|[c v] cs]; [reflexivity|]. apply name_not_combined. }
  rewrite (text_not_combined _ Hplain'), (text_not_combined _ Hplain).
  now rewrite parts_appended_all, List.map_app, concat_all_app, values_part_of.
Qed.

(** [X5] On a combined builder no chain of category calls, returning or
    throwing, changes what [stringify()] returns. *)
Theorem X5_combined_string_is_fixed (h : CssSelector.heap) (b : loc)
    (o : CssSelector.t) (cs : calls) :
  h !! b = Some o ->
  is_combined o = true ->
  exists s,
    CssSelector.stringify b h = (Normal s, h) /\
    CssSelector.stringify b (snd (chain b cs h)) = (Normal s, snd (chain b cs h)).
Proof.
  intros Hb Hcombined.
  destruct (chain_run cs h b o Hb) as (k & _ & Hstore & _). rewrite Hstore.
  exists (text o). split; [exact (stringify_eq h b o Hb)|].
  rewrite (stringify_eq _ b _ (lookup_updated h b o Hb _)).
  f_equal. f_equal.
  destruct (text_is_combined o Hcombined) as (p0 & ps & Hparts & ->).
  unfold is_combined in Hcombined. rewrite Hparts in Hcombined.
  unfold text. rewrite parts_appended_all, Hparts. simpl. now rewrite Hcombined.
Qed.

(** [X6] The builder [combine] returns accepts the same sequences of
    category calls as a new builder: the calls chained on it all return
    exactly when the sequence is valid. *)
Theorem X6_combined_accepts_exactly_valid (h : CssSelector.heap) (a b : loc)
    (A B : CssSelector.t) (combinator : string) (cs : calls) :
  h !! a = Some A -> h !! b = Some B ->
  exists r h1,
    CssSelector.combine a combinator b h = (Normal r, h1) /\
    ((exists r' h2, chain r cs h1 = (Normal r', h2)) <->
     nondecreasing cs /\ singletons_once cs).
Proof.
  intros Ha Hb. eexists _, _. split; [exact (combine_eq h a b A B combinator Ha Hb)|].
  destruct (chain_built_on cs []
              [opaque (text A +:+ " " +:+ combinator +:+ " " +:+ text B)]
              (h ++ [combined_of (text A) combinator (text B)]) (List.length h)
              (or_intror (ex_intro _ _ eq_refl)) (lookup_allocated h _) valid_nil)
    as [Hrun Hback].
  split.
  - intros (r' & h2 & Hchain). exact (Hback r' h2 Hchain).
  - intros Hvalid. rewrite (Hrun Hvalid). eauto.
Qed.

(** [X7] [combine] takes a snapshot: whatever is later chained on either
    argument, returning or throwing, [stringify()] on the combined builder
    returns the string it returned right after [combine]. *)
Theorem X7_combine_is_a_snapshot (h : CssSelector.heap) (a b : loc)
    (A B : CssSelector.t) (combinator : string) (cs : calls) :
  h !! a = Some A -> h !! b = Some B ->
  exists r h1 s,
    CssSelector.combine a combinator b h = (Normal r, h1) /\
    CssSelector.stringify r h1 = (Normal s, h1) /\
    forall l, l = a \/ l = b ->
      CssSelector.stringify r (snd (chain l cs h1)) = (Normal s, snd (chain l cs h1)).
Proof.
  intros Ha Hb.
  pose proof (lookup_lt_Some _ _ _ Ha) as Hlta.
  pose proof (lookup_lt_Some _ _ _ Hb) as Hltb.
  set (o := combined_of (text A) combinator (text B)).
  exists (List.length h), (h ++ [o]), (text o).
  split; [exact (combine_eq h a b A B combinator Ha Hb)|].
  split; [exact (stringify_eq _ _ _ (lookup_allocated h o))|].
  intros l Hl.
  assert (Hlt : (l < List.length h)%nat) by (destruct Hl as [-> | ->]; assumption).
  destruct (lookup_lt_is_Some_2 (h ++ [o]) l) as [ol Hol].
  { rewrite length_app. simpl. lia. }
  destruct (chain_run cs _ l ol Hol) as (k & _ & Hstore & _). rewrite Hstore.
  apply stringify_eq. rewrite list_lookup_insert_ne by lia. apply lookup_allocated.
Qed.

(** [X8] Nesting [combine] to the left or to the right gives the same
    string: with the strings of three builders [a], [b], [d],
    [combine(combine(a, c1, b), c2, d)] and
    [combine(a, c1, combine(b, c2, d))] both stringify to
    [a c1 b c2 d] with single spaces around each combinator. *)
Theorem X8_combine_associative (h : CssSelector.heap) (a b d : loc)
    (A B D : CssSelector.t) (c1 c2 : string) :
  h !! a = Some A -> h !! b = Some B -> h !! d = Some D ->
  exists sa sb sd,
    CssSelector.stringify a h = (Normal sa, h) /\
    CssSelector.stringify b h = (Normal sb, h) /\
    CssSelector.stringify d h = (Normal sd, h) /\
    fst ((ab <- CssSelector.combine a c1 b ;;
          r <- CssSelector.combine ab c2 d ;;
          CssSelector.stringify r) h) =
      Normal (sa +:+ " " +:+ c1 +:+ " " +:+ sb +:+ " " +:+ c2 +:+ " " +:+ sd) /\
    fst ((bd <- CssSelector.combine b c2 d ;;
          r <- CssSelector.combine a c1 bd ;;
          CssSelector.stringify r) h) =
      Normal (sa +:+ " " +:+ c1 +:+ " " +:+ sb +:+ " " +:+ c2 +:+ " " +:+ sd).
Proof.
  intros Ha Hb Hd.
  assert (Hold : forall (o' : CssSelector.t) l o,
            h !! l = Some o -> (h ++ [o']) !! l = Some o).
  { intros o' l o Hl. rewrite lookup_app_l; [exact Hl|]. eapply lookup_lt_Some, Hl. }
  exists (text A), (text B), (text D).
  split; [exact (stringify_eq h a A Ha)|].
  split; [exact (stringify_eq h b B Hb)|].
  split; [exact (stringify_eq h d D Hd)|].
  unfold CssSelector.bind. split.
  - rewrite (combine_eq h a b A B c1 Ha Hb).
    rewrite (combine_eq _ _ d _ D c2 (lookup_allocated h _) (Hold _ d D Hd)).
    rewrite (stringify_eq _ _ _ (lookup_allocated _ _)). simpl.
    now rewrite !text_combined_of, !append_assoc.
  - rewrite (combine_eq h b d B D c2 Hb Hd).
    rewrite (combine_eq _ a _ A _ c1 (Hold _ a A Ha) (lookup_allocated h _)).
    rewrite (stringify_eq _ _ _ (lookup_allocated _ _)). simpl.
    now rewrite !text_combined_of.
Qed.

Lemma has_built_on (pre : list Part) (cs : calls) (c : Category) :
  Js.has (CssSelector.usedParts (built_on pre cs)) (name c)
  = (0 <? occurrences c cs)%nat.
Proof.
  destruct (Nat.ltb_spec 0 (occurrences c cs)) as [Hlt|Hle].
  - now apply has_true, used_built_on.
  - apply not_true_is_false. rewrite has_true, used_built_on. lia.
Qed.

(** [X9] What a category call does on a builder is decided by the calls
    that built it.  It raises the ordering error when the last call was to
    a category of higher order-index; otherwise it raises the uniqueness
    error when the category is element, id or pseudo-element and was
    called before; otherwise it returns the builder with the part
    appended.  An opaque first part plays no role.  In the two error cases
    the store is unchanged. *)
Theorem X9_call_outcome (h : CssSelector.heap) (b : loc) (pre : list Part)
    (cs : calls) (c : Category) (v : string) :
  initial_parts pre ->
  h !! b = Some (built_on pre cs) ->
  invoke c b v h =
  if match last cs with
     | Some x => order_index (name c) <? order_index (name x.1)
     | None => false
     end
  then (Throw (Error CssSelector.order_message), h)
  else if singleton c && (0 <? occurrences c cs)%nat
       then (Throw (Error CssSelector.unique_message), h)
       else (Normal b, <[ b := built_on pre (cs ++ [(c, v)]) ]> h).
Proof.
  intros Hpre Hb. rewrite (invoke_eq c v h b _ Hb). unfold raised.
  rewrite (order_violation_built_on pre cs c Hpre), has_built_on, built_on_snoc.
  fold (singleton c).
  destruct (match last cs with Some _ => _ | None => _ end); [reflexivity|].
  now destruct (singleton c && (0 <? occurrences c cs)%nat).
Qed.

(** ** The further properties at concrete builders *)

(** [X2] at the store after [id('main').class('container')]. *)
Lemma X2_witness :
  reachable [built [(Id, "main"); (Class, "container")]] /\
  [built [(Id, "main"); (Class, "container")]] !! 0%nat
    = Some (built [(Id, "main"); (Class, "container")]) /\
  exists pre cs,
    built [(Id, "main"); (Class, "container")] = built_on pre cs /\
    nondecreasing cs /\ singletons_once cs.
Proof.
  assert (Hreach : reachable [built [(Id, "main"); (Class, "container")]]).
  { replace [built [(Id, "main"); (Class, "container")]]
      with (snd (invoke Class 0%nat "container"
                   (snd (invoke Id 0%nat "main" (snd (CssSelector.new []))))))
      by (vm_compute; reflexivity).
    apply reachable_invoke; [apply reachable_invoke|].
    - apply reachable_new, reachable_empty.
    - vm_compute. lia.
    - vm_compute. lia. }
  split; [exact Hreach|]. split; [reflexivity|].
  destruct (X2_reachable_builder_shape _ 0%nat _ Hreach eq_refl)
    as (pre & cs & Hshape & Hsorted & Honce & _).
  exists pre, cs. auto.
Defined.


(** [X4] at [div#main] followed by [.class('k').attr('x')]. *)
Lemma X4_witness :
  sample_store !! 0%nat = Some (built [(Element, "div"); (Id, "main")]) /\
  is_combined (built [(Element, "div"); (Id, "main")]) = false /\
  chain 0%nat [(Class, "k"); (Attr, "x")] sample_store =
    (Normal 0%nat,
     [built [(Element, "div"); (Id, "main"); (Class, "k"); (Attr, "x")];
      built [(Element, "td")]]) /\
  exists s,
    CssSelector.stringify 0%nat sample_store = (Normal s, sample_store) /\
    CssSelector.stringify 0%nat
      [built [(Element, "div"); (Id, "main"); (Class, "k"); (Attr, "x")];
       built [(Element, "td")]] =
      (Normal (s +:+ ".k[x]"),
       [built [(Element, "div"); (Id, "main"); (Class, "k"); (Attr, "x")];
        built [(Element, "td")]]).
Proof.
  assert (Hchain : chain 0%nat [(Class, "k"); (Attr, "x")] sample_store =
    (Normal 0%nat,
     [built [(Element, "div"); (Id, "main"); (Class, "k"); (Attr, "x")];
      built [(Element, "td")]])).
  { vm_compute. reflexivity. }
  split; [reflexivity|]. split; [reflexivity|]. split; [exact Hchain|].
  exact (X4_stringify_follows_calls sample_store _ 0%nat 0%nat
           (built [(Element, "div"); (Id, "main")]) [(Class, "k"); (Attr, "x")]
           eq_refl eq_refl Hchain).
Defined.

(** [X5] at a builder holding the opaque part [a > b], followed by
    [.id('x').element('y')]. *)
Lemma X5_witness :
  [built_on [opaque "a > b"] []] !! 0%nat = Some (built_on [opaque "a > b"] []) /\
  is_combined (built_on [opaque "a > b"] []) = true /\
  exists s,
    CssSelector.stringify 0%nat [built_on [opaque "a > b"] []] =
      (Normal s, [built_on [opaque "a > b"] []]) /\
    CssSelector.stringify 0%nat
      (snd (chain 0%nat [(Id, "x"); (Element, "y")] [built_on [opaque "a > b"] []])) =
      (Normal s,
       snd (chain 0%nat [(Id, "x"); (Element, "y")] [built_on [opaque "a > b"] []])).
Proof.
  split; [reflexivity|]. split; [reflexivity|].
  exact (X5_combined_string_is_fixed [built_on [opaque "a > b"] []] 0%nat _
           [(Id, "x"); (Element, "y")] eq_refl eq_refl).
Defined.

(** [X6] at [combine(div#main, '>', td)] followed by the sample calls. *)
Lemma X6_witness :
  sample_store !! 0%nat = Some (built [(Element, "div"); (Id, "main")]) /\
  sample_store !! 1%nat = Some (built [(Element, "td")]) /\
  exists r h1,
    CssSelector.combine 0%nat ">" 1%nat sample_store = (Normal r, h1) /\
    ((exists r' h2, chain r sample_calls h1 = (Normal r', h2)) <->
     nondecreasing sample_calls /\ singletons_once sample_calls).
Proof.
  split; [reflexivity|]. split; [reflexivity|].
  exact (X6_combined_accepts_exactly_valid sample_store 0%nat 1%nat _ _ ">"
           sample_calls eq_refl eq_refl).
Defined.

(** [X7] at [combine(div#main, '>', td)], then [.class('k')] on either
    argument. *)
Lemma X7_witness :
  sample_store !! 0%nat = Some (built [(Element, "div"); (Id, "main")]) /\
  sample_store !! 1%nat = Some (built [(Element, "td")]) /\
  exists r h1 s,
    CssSelector.combine 0%nat ">" 1%nat sample_store = (Normal r, h1) /\
    CssSelector.stringify r h1 = (Normal s, h1) /\
    forall l, l = 0%nat \/ l = 1%nat ->
      CssSelector.stringify r (snd (chain l [(Class, "k")] h1)) =
        (Normal s, snd (chain l [(Class, "k")] h1)).
Proof.
  split; [reflexivity|]. split; [reflexivity|].
  exact (X7_combine_is_a_snapshot sample_store 0%nat 1%nat _ _ ">" [(Class, "k")]
           eq_refl eq_refl).
Defined.

(** [X8] at [div#main], [td] and [div#main] again, with [>] and [+]. *)
Lemma X8_witness :
  sample_store !! 0%nat = Some (built [(Element, "div"); (Id, "main")]) /\
  sample_store !! 1%nat = Some (built [(Element, "td")]) /\
  exists sa sb sd,
    fst ((ab <- CssSelector.combine 0%nat ">" 1%nat ;;
          r <- CssSelector.combine ab "+" 0%nat ;;
          CssSelector.stringify r) sample_store) =
      Normal (sa +:+ " " +:+ ">" +:+ " " +:+ sb +:+ " " +:+ "+" +:+ " " +:+ sd) /\
    fst ((bd <- CssSelector.combine 1%nat "+" 0%nat ;;
          r <- CssSelector.combine 0%nat ">" bd ;;
          CssSelector.stringify r) sample_store) =
      Normal (sa +:+ " " +:+ ">" +:+ " " +:+ sb +:+ " " +:+ "+" +:+ " " +:+ sd).
Proof.
  split; [reflexivity|]. split; [reflexivity|].
  destruct (X8_combine_associative sample_store 0%nat 1%nat 0%nat _ _ _ ">" "+"
              eq_refl eq_refl eq_refl)
    as (sa & sb & sd & _ & _ & _ & Hleft & Hright).
  exists sa, sb, sd. auto.
Defined.

(** [X9] at [div#main] with a second [id] call. *)
Lemma X9_witness :
  initial_parts [] /\
  sample_store !! 0%nat = Some (built_on [] [(Element, "div"); (Id, "main")]) /\
  invoke Id 0%nat "x" sample_store =
    (Throw (Error CssSelector.unique_message), sample_store).
Proof.
  split; [now left|]. split; [reflexivity|].
  exact (X9_call_outcome sample_store 0%nat [] [(Element, "div"); (Id, "main")]
           Id "x" (or_introl eq_refl) eq_refl).
Defined.
